(** * typed-form-core: the [useForm] hook as a state-transition engine

    A shallow embedding of [src/useForm.ts] and [src/types.ts].

    The hook keeps three React state cells ([values], [errors], [touched]).
    Every render builds a fresh set of closures over the [values] of that
    render; the closures talk to React only through the three state setters.
    We model

    - the three cells as a record [HookState];
    - a closure body as a computation [Act A] that threads the live cells
      and emits a trace of the calls it makes (state setters, validators,
      the [onValid] callback, [preventDefault]) together with a marker for
      each entry into [validateField] / [validateAll];
    - one render as the function [useForm options st], which returns the
      record of closures built over the snapshot [st].

    The three mappings and [validators] are plain objects. A map holds the
    own properties of the object; a property read falls back on
    [Object.prototype] ([getField], [readValidator], [getProperty]), and
    an assignment under the name [__proto__] reaches the inherited setter
    ([assign]). The members of [Object.prototype] other than [toString]
    cannot be called as validators within the data of [types.ts] (they
    throw, or return a value that is not a string): the statements that
    depend on what the read [validators?.[name]] finds when nothing is
    registered are stated for names that are not properties of
    [Object.prototype] ([inheritedName]). *)

From stdpp Require Import gmap strings list fin_maps.

Set Warnings "-clear-no-such-hyp".

Local Open Scope string_scope.

(** ** Data model ([types.ts]) *)

(** Field values are arbitrary JavaScript values. Functions and objects
    are opaque: the hook never looks inside a value. *)
Inductive JsValue : Type :=
| JsUndefined
| JsNull
| JsBool (b : bool)
| JsNumber (n : Z)
| JsString (s : string)
| JsFunction
| JsObject.

(** [TValues], [Errors<TValues>], [Touched<TValues>]: plain objects used as
    maps from field name to value, message and flag. A map holds the own
    enumerable properties of the object; what the object inherits from
    [Object.prototype] is described by [Object_prototype_names] below. *)
Abbreviation Values := (gmap string JsValue).
Abbreviation Errors := (gmap string string).
Abbreviation Touched := (gmap string bool).

(** [ValidatorResult = string | null]: [None] is [null]. *)
Abbreviation ValidatorResult := (option string).

(** [(value: TValues[K], values: TValues) => ValidatorResult] *)
Abbreviation Validator := (JsValue → Values → ValidatorResult).

Abbreviation Validators := (gmap string Validator).

(** [UseFormOptions]: [validators] is an optional property. *)
Record UseFormOptions : Type := {
  defaultValues : Values;
  validators : option Validators;
}.

(** The three [useState] cells. *)
Record HookState : Type := {
  st_values : Values;
  st_errors : Errors;
  st_touched : Touched;
}.

(** The external [onValid] callbacks are identified by a label; a call is
    observed in the trace, like a spy. *)
Definition Callback : Type := nat.

(** The optional argument [e?: unknown] of the submit handler. *)
Inductive SubmitArg : Type :=
| ArgAbsent          (* no argument, or a falsy one *)
| ArgPlain           (* an object without a callable [preventDefault] *)
| ArgEvent.          (* an object whose [preventDefault] is a function *)

Inductive Event : Type :=
| SetValues                       (* [setValues(...)] *)
| SetErrors                       (* [setErrors(...)] *)
| SetTouched                      (* [setTouched(...)] *)
| ValidatorCall (name : string) (value : JsValue) (values : Values)
| ValidateFieldEnter (name : string)
| ValidateAllEnter
| OnValidCall (cb : Callback) (values : Values)
| PreventDefaultCall.

(** ** JavaScript primitives used by the hook *)

(** The property names every plain object inherits from
    [Object.prototype]. *)
Definition Object_prototype_names : list string :=
  [ "constructor"; "hasOwnProperty"; "isPrototypeOf"; "propertyIsEnumerable";
    "toLocaleString"; "toString"; "valueOf"; "__proto__";
    "__defineGetter__"; "__defineSetter__";
    "__lookupGetter__"; "__lookupSetter__" ].

Definition inheritedName (key : string) : bool :=
  existsb (String.eqb key) Object_prototype_names.

(** What the read of an inherited property yields: the accessor
    [__proto__] yields the prototype object, the other members are
    functions; any other missing property reads as [undefined]. *)
Definition inheritedValue (key : string) : JsValue :=
  if String.eqb key "__proto__" then JsObject
  else if inheritedName key then JsFunction
  else JsUndefined.

(** [values[name]]: the own property, else the inherited one. *)
Definition getField (o : Values) (name : string) : JsValue :=
  match o !! name with
  | Some v => v
  | None => inheritedValue name
  end.

(** [Object.keys(o)] *)
Definition Object_keys (o : Values) : list string := (map_to_list o).*1.

(** [if (message)]: [null] and the empty string are falsy. *)
Definition truthy (message : ValidatorResult) : bool :=
  match message with
  | Some s => negb (String.eqb s "")
  | None => false
  end.

(** [message == null] *)
Definition isNull (message : ValidatorResult) : bool :=
  match message with
  | Some _ => false
  | None => true
  end.

(** [o[name] = s] on a plain object: the own property is written or
    created, except under the name [__proto__], where an object without
    such an own property reaches the setter inherited from
    [Object.prototype], which ignores a string. *)
Definition assign (name s : string) (o : Errors) : Errors :=
  if String.eqb name "__proto__" then
    match o !! name with
    | Some _ => <[name := s]> o
    | None => o
    end
  else <[name := s]> o.

(** [next[name] = message] for a truthy message, [delete next[name]]
    otherwise. *)
Definition assignOrDelete (name : string) (message : ValidatorResult)
    (next : Errors) : Errors :=
  match message with
  | Some s => if truthy message then assign name s next else delete name next
  | None => delete name next
  end.

(** [Object.prototype.toString] called the way the hook calls a validator:
    a plain call, so [this] is [undefined] in the strict code of the module
    and the two arguments are ignored. *)
Definition Object_prototype_toString : Validator :=
  λ _ _, Some "[object Undefined]".

(** [vs[name]]: the own property, else the member inherited from
    [Object.prototype]. Of the inherited members only [toString] returns a
    string when it is called as a validator. Called the same way the other
    members throw a [TypeError] or return a value that is not a string,
    which the data of [types.ts] cannot hold: for their names the read is
    [None] here, and every statement below that depends on such a read
    excludes the names of [Object_prototype_names]. *)
Definition readValidator (vs : Validators) (name : string)
    : option Validator :=
  match vs !! name with
  | Some validate => Some validate
  | None =>
      if String.eqb name "toString" then Some Object_prototype_toString
      else None
  end.

(** ** Closure bodies: state threading with a call trace *)

Definition Act (A : Type) : Type := HookState → A * HookState * list Event.

Definition act_ret {A} (a : A) : Act A := λ st, (a, st, []).

Definition act_bind {A B} (m : Act A) (k : A → Act B) : Act B :=
  λ st,
    let '(a, st1, t1) := m st in
    let '(b, st2, t2) := k a st1 in
    (b, st2, (t1 ++ t2)%list).

#[global] Instance Act_ret : MRet Act := @act_ret.
#[global] Instance Act_bind : MBind Act := λ A B k m, act_bind m k.

Definition emit (e : Event) : Act unit := λ st, (tt, st, [e]).

(** The setters of the three cells, with a functional updater. *)
Definition setValues (f : Values → Values) : Act unit :=
  λ st, (tt, {| st_values := f (st_values st);
                st_errors := st_errors st;
                st_touched := st_touched st |}, [SetValues]).

Definition setErrors (f : Errors → Errors) : Act unit :=
  λ st, (tt, {| st_values := st_values st;
                st_errors := f (st_errors st);
                st_touched := st_touched st |}, [SetErrors]).

Definition setTouched (f : Touched → Touched) : Act unit :=
  λ st, (tt, {| st_values := st_values st;
                st_errors := st_errors st;
                st_touched := f (st_touched st) |}, [SetTouched]).

(** Projections of a run. *)
Definition result {A} (r : A * HookState * list Event) : A := r.1.1.
Definition after {A} (r : A * HookState * list Event) : HookState := r.1.2.
Definition trace {A} (r : A * HookState * list Event) : list Event := r.2.

(** ** The hook ([useForm.ts]) *)

(** [RegisterReturn] *)
Record RegisterReturn : Type := {
  name : string;
  value : JsValue;
  onChange : JsValue → Act unit;
  onBlur : Act unit;
}.

Section closures.
(** The closures of one render capture [options] and the [values] of
    that render. *)
Variable options : UseFormOptions.
Variable values : Values.

(** [validators?.[name]] *)
Definition lookupValidator (name : string) : option Validator :=
  match validators options with
  | Some vs => readValidator vs name
  | None => None
  end.

(** The validator the caller registered under [name]: the own property of
    [validators]. *)
Definition registeredValidator (name : string) : option Validator :=
  match validators options with
  | Some vs => vs !! name
  | None => None
  end.

(** [validateField] (useForm.ts, lines 13-36) *)
Definition validateField (name : string) : Act bool :=
  emit (ValidateFieldEnter name) ;;
  match lookupValidator name with
  | None =>
      setErrors (λ prev,
        match prev !! name with
        | None => prev
        | Some _ => delete name prev
        end) ;;
      mret true
  | Some validate =>
      emit (ValidatorCall name (getField values name) values) ;;
      let message := validate (getField values name) values in
      setErrors (λ prev, assignOrDelete name message prev) ;;
      mret (isNull message)
  end.

(** The body of the [forEach] in [validateAll] (lines 47-56); [ok] and
    [nextErrors] are the two local variables it updates. *)
Definition validateAll_body (vs : Validators) (acc : bool * Errors)
    (key : string) : Act (bool * Errors) :=
  match readValidator vs key with
  | None => mret acc
  | Some validate =>
      emit (ValidatorCall key (getField values key) values) ;;
      let message := validate (getField values key) values in
      match message with
      | Some s =>
          if truthy message then mret (false, assign key s acc.2)
          else mret acc
      | None => mret acc
      end
  end.

Fixpoint forEach {A} (body : A → string → Act A) (keys : list string)
    (acc : A) : Act A :=
  match keys with
  | [] => mret acc
  | key :: rest => acc1 ← body acc key; forEach body rest acc1
  end.

(** [validateAll] (lines 38-60) *)
Definition validateAll : Act bool :=
  emit ValidateAllEnter ;;
  match validators options with
  | None =>
      setErrors (λ _, ∅) ;;
      mret true
  | Some vs =>
      acc ← forEach (validateAll_body vs) (Object_keys values) (true, ∅);
      setErrors (λ _, acc.2) ;;
      mret acc.1
  end.

(** [setValue] (lines 62-64) *)
Definition setValue (name : string) (value : JsValue) : Act unit :=
  setValues (λ prev, <[name := value]> prev).

(** [register] (lines 66-79) *)
Definition register (name : string) : RegisterReturn :=
  {| name := name;
     value := getField values name;
     onChange := λ value, setValue name value;
     onBlur :=
       setTouched (λ prev, <[name := true]> prev) ;;
       validateField name ;;
       mret tt |}.

(** [reset] (lines 81-88); [default d o] is [o ?? d]. *)
Definition reset (nextValues : option Values) : Act unit :=
  setValues (λ _, default (defaultValues options) nextValues) ;;
  setErrors (λ _, ∅) ;;
  setTouched (λ _, ∅).

(** [if (e && typeof e.preventDefault === 'function') e.preventDefault()] *)
Definition preventDefaultIfPresent (e : SubmitArg) : Act unit :=
  match e with
  | ArgEvent => emit PreventDefaultCall
  | ArgAbsent | ArgPlain => mret tt
  end.

(** [handleSubmit] (lines 90-103) *)
Definition handleSubmit (onValid : Callback) (e : SubmitArg) : Act unit :=
  preventDefaultIfPresent e ;;
  validateAll ≫= λ ok : bool,
  if ok then emit (OnValidCall onValid values) else mret tt.

End closures.

(** [UseFormReturn]: the object a render hands to the caller. *)
Module UseFormReturn.
Record t : Type := {
  values : Values;
  errors : Errors;
  touched : Touched;
  register : string → RegisterReturn;
  setValue : string → JsValue → Act unit;
  validateField : string → Act bool;
  validateAll : Act bool;
  handleSubmit : Callback → SubmitArg → Act unit;
  reset : option Values → Act unit;
}.
End UseFormReturn.

(** The initial content of the cells: [useState(defaultValues)],
    [useState({})], [useState({})]. *)
Definition mount (options : UseFormOptions) : HookState :=
  {| st_values := defaultValues options; st_errors := ∅; st_touched := ∅ |}.

(** One render over the cells [st]. *)
Definition useForm (options : UseFormOptions) (st : HookState)
    : UseFormReturn.t :=
  {| UseFormReturn.values := st_values st;
     UseFormReturn.errors := st_errors st;
     UseFormReturn.touched := st_touched st;
     UseFormReturn.register := register options (st_values st);
     UseFormReturn.setValue := setValue;
     UseFormReturn.validateField := validateField options (st_values st);
     UseFormReturn.validateAll := validateAll options (st_values st);
     UseFormReturn.handleSubmit := handleSubmit options (st_values st);
     UseFormReturn.reset := reset options |}.

(** What a dynamic property read on the returned object observes. *)
Inductive Property : Type :=
| PropUndefined
| PropBool (b : bool)
| PropValues (v : Values)
| PropErrors (e : Errors)
| PropTouched (t : Touched)
| PropFunction
| PropObject.

(** The own properties of the object literal returned by [useForm]
    (lines 105-115). *)
Definition ownProperties (form : UseFormReturn.t) : list (string * Property) :=
  [ ("values", PropValues (UseFormReturn.values form));
    ("errors", PropErrors (UseFormReturn.errors form));
    ("touched", PropTouched (UseFormReturn.touched form));
    ("register", PropFunction);
    ("setValue", PropFunction);
    ("validateField", PropFunction);
    ("validateAll", PropFunction);
    ("handleSubmit", PropFunction);
    ("reset", PropFunction) ].

(** What the returned object inherits from [Object.prototype]. *)
Definition inheritedProperty (key : string) : Property :=
  if String.eqb key "__proto__" then PropObject
  else if inheritedName key then PropFunction
  else PropUndefined.

Fixpoint assoc (key : string) (props : list (string * Property)) : Property :=
  match props with
  | [] => inheritedProperty key
  | (k, p) :: rest => if String.eqb k key then p else assoc key rest
  end.

(** [form[key]]: the own property, else the inherited one. *)
Definition getProperty (form : UseFormReturn.t) (key : string) : Property :=
  assoc key (ownProperties form).

(** ** Driving the engine *)

(** The calls a caller can make on the closures of a render. *)
Inductive Op : Type :=
| CallSetValue (name : string) (value : JsValue)
| CallValidateField (name : string)
| CallValidateAll
| CallOnChange (name : string) (value : JsValue)
| CallOnBlur (name : string)
| CallSubmit (onValid : Callback) (e : SubmitArg)
| CallReset (nextValues : option Values).

Definition perform (form : UseFormReturn.t) (op : Op) : Act unit :=
  match op with
  | CallSetValue name value => UseFormReturn.setValue form name value
  | CallValidateField name => UseFormReturn.validateField form name ;; mret tt
  | CallValidateAll => UseFormReturn.validateAll form ;; mret tt
  | CallOnChange name value => onChange (UseFormReturn.register form name) value
  | CallOnBlur name => onBlur (UseFormReturn.register form name)
  | CallSubmit onValid e => UseFormReturn.handleSubmit form onValid e
  | CallReset nextValues => UseFormReturn.reset form nextValues
  end.

Fixpoint performAll (form : UseFormReturn.t) (ops : list Op) : Act unit :=
  match ops with
  | [] => mret tt
  | op :: rest => perform form op ;; performAll form rest
  end.

(** A batch is a list of calls made on the closures of one render; the
    queued updates are applied in order and the hook renders again. *)
Definition runBatch (options : UseFormOptions) (st : HookState)
    (ops : list Op) : HookState :=
  after (performAll (useForm options st) ops st).

Definition runBatches (options : UseFormOptions) (st : HookState)
    (batches : list (list Op)) : HookState :=
  foldl (runBatch options) st batches.

(** ** Sample forms *)

Definition required : Validator :=
  λ value _,
    match value with
    | JsString s => if String.eqb s "" then Some "Required" else None
    | _ => Some "Required"
    end.

Definition usernameForm : UseFormOptions :=
  {| defaultValues := {[ "username" := JsString "" ]};
     validators := Some {[ "username" := required ]} |}.

Definition matchesPassword : Validator :=
  λ value values,
    match value, getField values "password" with
    | JsString a, JsString b =>
        if String.eqb a b then None else Some "Passwords must match"
    | _, _ => Some "Passwords must match"
    end.

Definition passwordForm : UseFormOptions :=
  {| defaultValues :=
       {[ "password" := JsString "secret"; "confirm" := JsString "different" ]};
     validators := Some {[ "confirm" := matchesPassword ]} |}.

(** A validator that reports the empty string. *)
Definition emptyMessage : Validator := λ _ _, Some "".

Definition emptyMessageForm : UseFormOptions :=
  {| defaultValues := {[ "x" := JsString "a" ]};
     validators := Some {[ "x" := emptyMessage ]} |}.

(** A field named [__proto__] with a validator of its own. *)
Definition protoForm : UseFormOptions :=
  {| defaultValues := {[ "__proto__" := JsString "" ]};
     validators := Some {[ "__proto__" := required ]} |}.

(** A field named [toString] and a [validators] object without
    properties. *)
Definition toStringForm : UseFormOptions :=
  {| defaultValues := {[ "toString" := JsString "v" ]};
     validators := Some ∅ |}.

Definition plainForm : UseFormOptions :=
  {| defaultValues := {[ "username" := JsString ""; "age" := JsNumber 0 ]};
     validators := None |}.


(** ** Vocabulary of the proofs *)

(** The message a field reports to [errors]: the validator's result when
    it is truthy, nothing when the field has no validator or the result is
    [null] or the empty string. *)
Definition keepTruthy (message : ValidatorResult) : option string :=
  if truthy message then message else None.

Definition reported (options : UseFormOptions) (values : Values)
    (key : string) : option string :=
  match lookupValidator options key with
  | Some validate => keepTruthy (validate (getField values key) values)
  | None => None
  end.

(** The [forEach] body of [validateAll] without its trace. *)
Definition bodyPure (values : Values) (vs : Validators)
    (acc : bool * Errors) (key : string) : bool * Errors :=
  match readValidator vs key with
  | Some validate =>
      match keepTruthy (validate (getField values key) values) with
      | Some s => (false, assign key s acc.2)
      | None => acc
      end
  | None => acc
  end.

Definition validatorCalls (values : Values) (vs : Validators)
    (keys : list string) : list Event :=
  omap (λ key, match readValidator vs key with
               | Some _ => Some (ValidatorCall key (getField values key) values)
               | None => None
               end) keys.

Definition isValidateAllEnter (e : Event) : bool :=
  match e with ValidateAllEnter => true | _ => false end.

Definition isOnValidCall (e : Event) : bool :=
  match e with OnValidCall _ _ => true | _ => false end.

(** Events that show a validation took place. *)
Definition isValidation (e : Event) : bool :=
  match e with
  | ValidatorCall _ _ _ | ValidateFieldEnter _ | ValidateAllEnter => true
  | _ => false
  end.

(** The calls of the validator stored under [name]. *)
Definition isValidatorCallFor (name : string) (e : Event) : bool :=
  match e with
  | ValidatorCall n _ _ => bool_decide (n = name)
  | _ => false
  end.

Definition isPreventDefaultCall (e : Event) : bool :=
  match e with PreventDefaultCall => true | _ => false end.

(** An entry of [errors] as the hook writes it: a non-empty message under
    a name that has a validator. *)
Definition errorEntryOk (options : UseFormOptions) (key message : string)
    : Prop :=
  message ≠ "" ∧ is_Some (lookupValidator options key).

(** ** Statements about the engine *)

(** The statement "[validateField] is [true] exactly on the no-error signal,
    a [false] result leaves the returned message in [errors], and [values]
    and [touched] are not written", for the results accepted by [counted]. *)
Definition validateField_reports (counted : ValidatorResult → Prop)
    (options : UseFormOptions) (st : HookState) (name : string)
    (v : Validator) : Prop :=
  let message := v (getField (st_values st) name) (st_values st) in
  let r := UseFormReturn.validateField (useForm options st) name st in
  (result r = true ↔ message = None) ∧
  (result r = false → counted message →
     st_errors (after r) !! name = message) ∧
  st_values (after r) = st_values st ∧
  st_touched (after r) = st_touched st.

(** The statement "after [validateAll] the keys of [errors] are exactly the
    fields whose validator returned a result accepted by [counted], and the
    call is [true] exactly when no evaluated validator returned one". *)
Definition validateAll_recomputes (counted : ValidatorResult → Prop)
    (options : UseFormOptions) (st : HookState) : Prop :=
  let values := st_values st in
  let r := UseFormReturn.validateAll (useForm options st) st in
  (∀ name, is_Some (st_errors (after r) !! name) ↔
     is_Some (values !! name) ∧
     ∃ v, registeredValidator options name = Some v ∧
          counted (v (getField values name) values)) ∧
  (result r = true ↔
     ∀ name v, is_Some (values !! name) →
       registeredValidator options name = Some v →
       ¬ counted (v (getField values name) values)).

(** The field names fixed at construction. *)
Definition fieldSet (options : UseFormOptions) : gset string :=
  dom (defaultValues options).

Definition keysPreserved (options : UseFormOptions) (st : HookState) : Prop :=
  dom (st_values st) = fieldSet options ∧
  dom (st_errors st) ⊆ fieldSet options ∧
  dom (st_touched st) ⊆ fieldSet options.

(** Calls that respect the schema, as the types of [UseFormReturn] demand:
    field names are keys of [TValues], and a replacement passed to [reset]
    is a full [TValues]. A [validateField] on another name is harmless as
    long as the read [validators?.[name]] finds nothing: no validator is
    registered under the name, and the name is not a property of
    [Object.prototype] or there is no [validators] object. *)
Definition opInSchema (options : UseFormOptions) (op : Op) : Prop :=
  match op with
  | CallSetValue name _ | CallOnChange name _ | CallOnBlur name =>
      name ∈ fieldSet options
  | CallValidateField name =>
      name ∈ fieldSet options ∨
      (registeredValidator options name = None ∧
       (inheritedName name = false ∨ validators options = None))
  | CallValidateAll | CallSubmit _ _ | CallReset None => True
  | CallReset (Some W) => dom W = fieldSet options
  end.

(** Names that are not properties of [Object.prototype]. *)
Definition namesPlain {A} (o : gmap string A) : Prop :=
  ∀ key, is_Some (o !! key) → inheritedName key = false.

(** Calls whose names are not properties of [Object.prototype]. *)
Definition opPlain (op : Op) : Prop :=
  match op with
  | CallSetValue name _ | CallOnChange name _ | CallOnBlur name
  | CallValidateField name => inheritedName name = false
  | CallValidateAll | CallSubmit _ _ | CallReset None => True
  | CallReset (Some W) => namesPlain W
  end.

(** * Properties *)

(** ** Running the closures *)

Section run_lemmas.
Context (options : UseFormOptions) (values : Values).

Lemma keepTruthy_Some message s :
  keepTruthy message = Some s ↔ message = Some s ∧ s ≠ "".
Proof.
  unfold keepTruthy, truthy. destruct message as [m|]; [|naive_solver].
  destruct (String.eqb_spec m ""); simpl; naive_solver.
Qed.

Lemma keepTruthy_None message :
  keepTruthy message = None ↔ truthy message = false.
Proof.
  unfold keepTruthy. destruct (truthy message) eqn:E; [|done].
  destruct message; [naive_solver | done].
Qed.

Lemma elem_of_Object_keys key :
  key ∈ Object_keys values ↔ is_Some (values !! key).
Proof.
  unfold Object_keys. rewrite list_elem_of_fmap. split.
  - intros [[k x] [-> Hin]]. apply elem_of_map_to_list in Hin. by exists x.
  - intros [x Hx]. exists (key, x). split; [done|].
    by apply elem_of_map_to_list.
Qed.

Lemma bind_run {A B} (m : Act A) (k : A → Act B) st :
  (m ≫= k) st =
    (result (k (result (m st)) (after (m st))),
     after (k (result (m st)) (after (m st))),
     trace (m st) ++ trace (k (result (m st)) (after (m st))))%list.
Proof.
  unfold mbind, Act_bind, act_bind, result, after, trace.
  destruct (m st) as [[a st1] t1]. cbn.
  by destruct (k a st1) as [[b st2] t2].
Qed.

Lemma after_bind {A B} (m : Act A) (k : A → Act B) st :
  after ((m ≫= k) st) = after (k (result (m st)) (after (m st))).
Proof. by rewrite bind_run. Qed.

Lemma after_ret {A} (a : A) st : after ((mret a : Act A) st) = st.
Proof. done. Qed.

Lemma validateAll_body_run vs acc key st :
  validateAll_body values vs acc key st =
    (bodyPure values vs acc key, st, validatorCalls values vs [key]).
Proof.
  unfold validateAll_body, bodyPure, validatorCalls, keepTruthy.
  cbn [omap list_omap].
  destruct (readValidator vs key) as [validate|]; [|done].
  rewrite bind_run. cbn.
  destruct (validate (getField values key) values) as [s|]; [|done].
  by destruct (truthy (Some s)).
Qed.

Lemma forEach_body_run vs keys acc st :
  forEach (validateAll_body values vs) keys acc st =
    (foldl (bodyPure values vs) acc keys, st, validatorCalls values vs keys).
Proof.
  revert acc. induction keys as [|key keys IH]; intros acc; [done|].
  cbn [forEach foldl]. rewrite bind_run, validateAll_body_run.
  unfold result, after, trace. cbn [fst snd]. rewrite IH.
  unfold validatorCalls. cbn [omap list_omap fst snd].
  by destruct (readValidator vs key).
Qed.

Lemma assign_lookup_ne name s (o : Errors) k :
  k ≠ name → assign name s o !! k = o !! k.
Proof.
  intros Hne. unfold assign.
  destruct (String.eqb name "__proto__"), (o !! name);
    try done; by rewrite lookup_insert_ne.
Qed.

Lemma assign_lookup_eq name s (o : Errors) :
  name ≠ "__proto__" → assign name s o !! name = Some s.
Proof.
  intros Hne. unfold assign.
  destruct (String.eqb_spec name "__proto__"); [done|].
  by rewrite lookup_insert_eq.
Qed.

Lemma assign_insert name s (o : Errors) :
  name ≠ "__proto__" → assign name s o = <[name := s]> o.
Proof.
  intros Hne. unfold assign. by destruct (String.eqb_spec name "__proto__").
Qed.

Lemma assign_proto_absent s (o : Errors) :
  o !! "__proto__" = None → assign "__proto__" s o = o.
Proof. intros Ho. unfold assign. cbn. by rewrite Ho. Qed.

Lemma assign_cases name s (o : Errors) :
  assign name s o = <[name := s]> o ∨ assign name s o = o.
Proof.
  unfold assign. destruct (String.eqb name "__proto__"), (o !! name); auto.
Qed.

Lemma assign_dom name s (o : Errors) :
  dom (assign name s o) ⊆ {[name]} ∪ dom o.
Proof.
  destruct (assign_cases name s o) as [-> | ->]; [|set_solver].
  rewrite dom_insert_L. set_solver.
Qed.

Lemma delete_assign name s (o : Errors) :
  delete name (assign name s o) = delete name o.
Proof.
  destruct (assign_cases name s o) as [-> | ->]; [|done].
  by rewrite delete_insert_eq.
Qed.

Lemma foldl_bodyPure_errors vs keys acc k :
  k ≠ "__proto__" →
  (foldl (bodyPure values vs) acc keys).2 !! k =
    match (if decide (k ∈ keys)
           then match readValidator vs k with
                | Some validate =>
                    keepTruthy (validate (getField values k) values)
                | None => None
                end
           else None) with
    | Some s => Some s
    | None => acc.2 !! k
    end.
Proof.
  intros Hproto.
  revert acc. induction keys as [|key keys IH]; intros acc.
  - cbn. by rewrite decide_False by apply not_elem_of_nil.
  - cbn [foldl]. rewrite IH. unfold bodyPure.
    destruct (decide (k = key)) as [->|Hne].
    + rewrite (decide_True (P := key ∈ key :: keys)) by apply list_elem_of_here.
      destruct (readValidator vs key) as [validate|]; [|by case_decide].
      destruct (keepTruthy (validate (getField values key) values)) as [s|];
        cbn; [|by case_decide].
      case_decide; [done|]. by rewrite assign_lookup_eq.
    + assert (k ∈ key :: keys ↔ k ∈ keys) as Hin.
      { rewrite elem_of_cons. naive_solver. }
      destruct (decide (k ∈ keys)) as [Hk|Hk].
      * rewrite decide_True by by apply Hin.
        destruct (readValidator vs k) as [vk|]; [destruct (keepTruthy _); [done|]|];
          destruct (readValidator vs key) as [validate|]; try done;
          destruct (keepTruthy (validate _ _)); try done;
          cbn; by rewrite assign_lookup_ne.
      * rewrite decide_False by by rewrite Hin.
        destruct (readValidator vs key) as [validate|]; [|done].
        destruct (keepTruthy (validate _ _)); [|done].
        cbn. by rewrite assign_lookup_ne.
Qed.

Lemma foldl_bodyPure_proto vs keys acc :
  acc.2 !! "__proto__" = None →
  (foldl (bodyPure values vs) acc keys).2 !! "__proto__" = None.
Proof.
  revert acc. induction keys as [|key keys IH]; intros acc Hacc; [done|].
  cbn [foldl]. apply IH. unfold bodyPure.
  destruct (readValidator vs key) as [validate|]; [|done].
  destruct (keepTruthy (validate _ _)); [|done]. cbn.
  destruct (decide (key = "__proto__")) as [->|Hne].
  - by rewrite assign_proto_absent.
  - by rewrite assign_lookup_ne.
Qed.

Lemma foldl_bodyPure_ok vs keys acc :
  (foldl (bodyPure values vs) acc keys).1 = true ↔
    acc.1 = true ∧
    ∀ k validate, k ∈ keys → readValidator vs k = Some validate →
      keepTruthy (validate (getField values k) values) = None.
Proof.
  revert acc. induction keys as [|key keys IH]; intros acc.
  - cbn. split; [|by intros [? _]].
    intros ?. split; [done|]. intros k validate Hk. by apply not_elem_of_nil in Hk.
  - cbn [foldl]. rewrite IH. unfold bodyPure.
    split.
    + intros [Hacc Hrest].
      destruct (readValidator vs key) as [validate|] eqn:Hv.
      * destruct (keepTruthy (validate _ _)) eqn:Hm; [done|].
        split; [done|]. intros k v' [->|Hk]%elem_of_cons Hk'; [|eauto].
        by simplify_eq.
      * split; [done|]. intros k v' [->|Hk]%elem_of_cons Hk'; [|eauto].
        by simplify_eq.
    + intros [Hacc Hall].
      destruct (readValidator vs key) as [validate|] eqn:Hv.
      * rewrite (Hall key validate) by (done || apply list_elem_of_here).
        split; [done|]. intros k v' Hk. apply Hall. by apply list_elem_of_further.
      * split; [done|]. intros k v' Hk. apply Hall. by apply list_elem_of_further.
Qed.

Lemma validatorCalls_not_enter vs keys :
  List.filter isValidateAllEnter (validatorCalls values vs keys) = [].
Proof.
  induction keys as [|key keys IH]; [done|].
  unfold validatorCalls in *. cbn [omap list_omap].
  by destruct (readValidator vs key).
Qed.

Lemma validatorCalls_not_onValid vs keys :
  List.filter isOnValidCall (validatorCalls values vs keys) = [].
Proof.
  induction keys as [|key keys IH]; [done|].
  unfold validatorCalls in *. cbn [omap list_omap].
  by destruct (readValidator vs key).
Qed.

(** [validateAll] on the cells [st], closed over [values]. *)
Lemma validateAll_run st :
  validateAll options values st =
    match validators options with
    | None =>
        (true,
         {| st_values := st_values st; st_errors := ∅;
            st_touched := st_touched st |},
         [ValidateAllEnter; SetErrors])
    | Some vs =>
        let acc := foldl (bodyPure values vs) (true, ∅) (Object_keys values) in
        (acc.1,
         {| st_values := st_values st; st_errors := acc.2;
            st_touched := st_touched st |},
         ValidateAllEnter ::
           validatorCalls values vs (Object_keys values) ++ [SetErrors])
    end.
Proof.
  unfold validateAll. rewrite bind_run.
  destruct (validators options) as [vs|]; [|done].
  rewrite bind_run, forEach_body_run. cbn.
  by rewrite bind_run.
Qed.

Lemma validateAll_frame st :
  st_values (after (validateAll options values st)) = st_values st ∧
  st_touched (after (validateAll options values st)) = st_touched st.
Proof. rewrite validateAll_run. by destruct (validators options). Qed.

Lemma validateAll_errors st k :
  st_errors (after (validateAll options values st)) !! k =
    if decide (is_Some (values !! k) ∧ k ≠ "__proto__")
    then reported options values k
    else None.
Proof.
  rewrite validateAll_run. unfold reported, lookupValidator.
  destruct (validators options) as [vs|]; cbn.
  - destruct (decide (k = "__proto__")) as [->|Hproto].
    + rewrite foldl_bodyPure_proto by done.
      rewrite decide_False; [done | by intros [_ ?]].
    + rewrite foldl_bodyPure_errors by done. cbn. rewrite lookup_empty.
      destruct (decide (is_Some (values !! k))) as [Hk|Hk].
      * rewrite decide_True by by apply elem_of_Object_keys.
        rewrite decide_True by done.
        destruct (readValidator vs k); [by destruct (keepTruthy _)|done].
      * rewrite decide_False by by rewrite elem_of_Object_keys.
        rewrite decide_False; [done | by intros [? _]].
  - rewrite lookup_empty. by case_decide.
Qed.

Lemma validateAll_errors_Some st k s :
  st_errors (after (validateAll options values st)) !! k = Some s →
  is_Some (values !! k) ∧ k ≠ "__proto__" ∧ reported options values k = Some s.
Proof.
  rewrite validateAll_errors. case_decide as Hk; [|done]. naive_solver.
Qed.

Lemma validateAll_result st :
  result (validateAll options values st) = true ↔
    ∀ k, is_Some (values !! k) → reported options values k = None.
Proof.
  rewrite validateAll_run. unfold reported, lookupValidator.
  destruct (validators options) as [vs|]; cbn; [|done].
  rewrite foldl_bodyPure_ok. cbn. split.
  - intros [_ Hall] k Hk. destruct (readValidator vs k) as [validate|] eqn:Hv; [|done].
    apply Hall; [by apply elem_of_Object_keys | done].
  - intros Hall. split; [done|]. intros k validate Hk Hv.
    apply elem_of_Object_keys in Hk. specialize (Hall k Hk).
    by rewrite Hv in Hall.
Qed.

Lemma validateAll_trace st :
  List.filter isValidateAllEnter (trace (validateAll options values st)) =
    [ValidateAllEnter] ∧
  List.filter isOnValidCall (trace (validateAll options values st)) = [].
Proof.
  rewrite validateAll_run. destruct (validators options) as [vs|]; [|done].
  cbn. rewrite !List.filter_app, validatorCalls_not_enter,
    validatorCalls_not_onValid. done.
Qed.

(** [validateField name] on the cells [st], closed over [values]. *)
Lemma validateField_run st name :
  validateField options values name st =
    match lookupValidator options name with
    | None =>
        (true,
         {| st_values := st_values st;
            st_errors := match st_errors st !! name with
                         | None => st_errors st
                         | Some _ => delete name (st_errors st)
                         end;
            st_touched := st_touched st |},
         [ValidateFieldEnter name; SetErrors])
    | Some validate =>
        let message := validate (getField values name) values in
        (isNull message,
         {| st_values := st_values st;
            st_errors := assignOrDelete name message (st_errors st);
            st_touched := st_touched st |},
         [ValidateFieldEnter name;
          ValidatorCall name (getField values name) values;
          SetErrors])
    end.
Proof.
  unfold validateField. rewrite bind_run.
  destruct (lookupValidator options name) as [validate|].
  - by rewrite !bind_run.
  - by rewrite bind_run.
Qed.

Lemma validateField_frame st name :
  st_values (after (validateField options values name st)) = st_values st ∧
  st_touched (after (validateField options values name st)) = st_touched st.
Proof.
  rewrite validateField_run. by destruct (lookupValidator options name).
Qed.

Lemma assignOrDelete_lookup name message (errs : Errors) :
  name ≠ "__proto__" →
  assignOrDelete name message errs !! name = keepTruthy message.
Proof.
  intros Hproto. unfold assignOrDelete, keepTruthy.
  destruct message as [s|]; [|by rewrite lookup_delete_eq].
  destruct (truthy (Some s)); [by rewrite assign_lookup_eq|].
  by rewrite lookup_delete_eq.
Qed.

Lemma assignOrDelete_lookup_falsy name message (errs : Errors) :
  truthy message = false →
  assignOrDelete name message errs !! name = None.
Proof.
  intros Hfalsy. unfold assignOrDelete. rewrite Hfalsy.
  destruct message; by rewrite lookup_delete_eq.
Qed.

Lemma assignOrDelete_dom name message (errs : Errors) :
  dom (assignOrDelete name message errs) ⊆ {[name]} ∪ dom errs.
Proof.
  unfold assignOrDelete.
  destruct message as [s|]; [destruct (truthy (Some s))|].
  - apply assign_dom.
  - rewrite dom_delete_L. set_solver.
  - rewrite dom_delete_L. set_solver.
Qed.

Lemma isNull_true message : isNull message = true ↔ message = None.
Proof. by destruct message. Qed.

End run_lemmas.

(** ** [validateField] *)

(** C3, as stated, fails: with a validator that returns the empty string,
    [validateField] is [false] but [errors] has no entry for the field. *)
Lemma validateField_empty_message_not_stored :
  ¬ validateField_reports (λ _, True) emptyMessageForm
      (mount emptyMessageForm) "x" emptyMessage.
Proof.
  intros (_ & Hstored & _). specialize (Hstored eq_refl I).
  vm_compute in Hstored. discriminate.
Qed.

(** The statement of C3 also fails for a field named [__proto__]: the
    assignment [next[name] = message] reaches the inherited setter, which
    ignores a string, so a non-empty message is not stored either. *)
Lemma validateField_proto_message_not_stored :
  ¬ validateField_reports (λ _, True) protoForm
      (mount protoForm) "__proto__" required.
Proof.
  intros (_ & Hstored & _). specialize (Hstored eq_refl I).
  vm_compute in Hstored. discriminate.
Qed.

(** C3 (amended): for a field with a registered validator [v],
    [validateField name] is [true] if and only if [v (values[name], values)]
    is [null]; when it is [false], the returned message is not the empty
    string and the field is not named [__proto__], [errors[name]] is that
    message afterwards; [values] and [touched] are unchanged in every
    case. *)
Theorem validateField_with_validator options st name v :
  lookupValidator options name = Some v →
  validateField_reports
    (λ message, message ≠ Some "" ∧ name ≠ "__proto__") options st name v.
Proof.
  intros Hv. unfold validateField_reports. cbn [UseFormReturn.validateField useForm].
  split_and!; try apply validateField_frame.
  - rewrite validateField_run, Hv. apply isNull_true.
  - rewrite validateField_run, Hv. cbn. intros Hfalse [Hne Hproto].
    rewrite assignOrDelete_lookup by done.
    destruct (v (getField (st_values st) name) (st_values st)) as [s|] eqn:Hm;
      [|done].
    apply keepTruthy_Some. split; [done|]. congruence.
Qed.

Lemma validateField_with_validator_witness :
  lookupValidator usernameForm "username" = Some required ∧
  validateField_reports
    (λ message, message ≠ Some "" ∧ "username" ≠ "__proto__") usernameForm
    (mount usernameForm) "username" required.
Proof.
  split; [reflexivity|].
  apply (validateField_with_validator usernameForm (mount usernameForm)
           "username" required).
  reflexivity.
Defined.

(** C9: for a field named [toString] that has no registered validator,
    [validators?.[name]] finds [Object.prototype.toString]: [validateField]
    calls it, is [false], and stores its result in [errors], instead of
    being [true] and leaving no entry; [validateAll] does the same. *)
Theorem validateField_calls_inherited_toString :
  let st := mount toStringForm in
  let form := useForm toStringForm st in
  let vf := UseFormReturn.validateField form "toString" st in
  let va := UseFormReturn.validateAll form st in
  registeredValidator toStringForm "toString" = None ∧
  result vf = false ∧
  st_errors (after vf) !! "toString" = Some "[object Undefined]" ∧
  List.filter (isValidatorCallFor "toString") (trace vf) =
    [ValidatorCall "toString" (JsString "v") (st_values st)] ∧
  result va = false ∧
  st_errors (after va) !! "toString" = Some "[object Undefined]".
Proof. by vm_compute. Qed.

Lemma inheritedName_toString name :
  inheritedName name = false → String.eqb name "toString" = false.
Proof.
  destruct (String.eqb_spec name "toString") as [->|]; [|done].
  by vm_compute.
Qed.

Lemma inheritedName_proto name :
  inheritedName name = false → name ≠ "__proto__".
Proof. intros Hname ->. by vm_compute in Hname. Qed.

(** The read [validators?.[name]] finds nothing when nothing is registered
    under [name] and either there is no [validators] object or [name] is
    not a property of [Object.prototype]. *)
Lemma lookupValidator_plain options name :
  inheritedName name = false ∨ validators options = None →
  lookupValidator options name = registeredValidator options name.
Proof.
  unfold lookupValidator, registeredValidator, readValidator.
  intros [Hname| ->]; [|done].
  destruct (validators options) as [vs|]; [|done].
  destruct (vs !! name); [done|]. by rewrite inheritedName_toString.
Qed.

(** For a name that is not a property of [Object.prototype] (or without a
    [validators] object), a field without a registered validator is valid:
    [validateField name] is [true] and removes the entry of [name] from
    [errors] (nothing changes when there is none); [values] and [touched]
    are unchanged. *)
Lemma validateField_without_validator options st name :
  registeredValidator options name = None →
  inheritedName name = false ∨ validators options = None →
  let r := UseFormReturn.validateField (useForm options st) name st in
  result r = true ∧
  st_errors (after r) = delete name (st_errors st) ∧
  (st_errors st !! name = None → st_errors (after r) = st_errors st) ∧
  st_values (after r) = st_values st ∧
  st_touched (after r) = st_touched st.
Proof.
  intros Hv Hname r. subst r. cbn [UseFormReturn.validateField useForm].
  rewrite validateField_run, lookupValidator_plain, Hv by done. cbn.
  split_and!; try done.
  - destruct (st_errors st !! name) eqn:He; [done|].
    symmetry. by apply delete_id.
  - by intros ->.
Qed.

Lemma validateField_without_validator_witness :
  registeredValidator plainForm "age" = None ∧
  let st := {| st_values := defaultValues plainForm;
               st_errors := {[ "age" := "Must be 18+" ]};
               st_touched := ∅ |} in
  let r := UseFormReturn.validateField (useForm plainForm st) "age" st in
  result r = true ∧
  st_errors (after r) = delete "age" (st_errors st) ∧
  (st_errors st !! "age" = None → st_errors (after r) = st_errors st) ∧
  st_values (after r) = st_values st ∧
  st_touched (after r) = st_touched st.
Proof.
  split; [reflexivity|].
  apply (validateField_without_validator plainForm
           {| st_values := defaultValues plainForm;
              st_errors := {[ "age" := "Must be 18+" ]};
              st_touched := ∅ |} "age").
  - reflexivity.
  - by left.
Defined.

(** ** [validateAll] *)

(** C2, as stated, fails: a validator that returns the empty string returned
    a non-null message, yet its field is absent from [errors]. *)
Lemma validateAll_empty_message_not_counted :
  ¬ validateAll_recomputes (λ message, message ≠ None) emptyMessageForm
      (mount emptyMessageForm).
Proof.
  intros [Hkeys _]. destruct (Hkeys "x") as [_ Hin].
  assert (is_Some (@None string)) as [? ?]; [|done].
  apply Hin. split; [by eexists|]. by exists emptyMessage.
Qed.

(** C2 (amended): for a form whose field names are not properties of
    [Object.prototype], after [validateAll ()] the [errors] mapping contains
    exactly the field names whose registered validator returned a non-empty
    message on the current values (fields without a validator, with a [null]
    result or with an empty message are absent, whatever [errors] held
    before), and [validateAll ()] is [true] if and only if no evaluated
    validator returned a non-empty message. *)
Theorem validateAll_errors_exact options st :
  (∀ key, is_Some (st_values st !! key) → inheritedName key = false) →
  validateAll_recomputes (λ message, ∃ s, message = Some s ∧ s ≠ "")
    options st.
Proof.
  intros Hplain.
  unfold validateAll_recomputes. cbn [UseFormReturn.validateAll useForm].
  split.
  - intros name. rewrite validateAll_errors. unfold reported.
    destruct (decide (is_Some (st_values st !! name))) as [Hk|Hk].
    + rewrite decide_True by (split; [done | by apply inheritedName_proto, Hplain]).
      rewrite lookupValidator_plain by (left; by apply Hplain).
      destruct (registeredValidator options name) as [v|].
      * split.
        -- intros [s Hs]. split; [done|]. exists v. split; [done|].
           exists s. by apply keepTruthy_Some.
        -- intros (_ & v' & [= <-] & s & Hs). exists s.
           by apply keepTruthy_Some.
      * split; [by intros [? ?] | by intros (_ & ? & ? & _)].
    + rewrite decide_False by (by intros [? _]).
      split; [by intros [? ?] | by intros [? _]].
  - rewrite validateAll_result. unfold reported. split.
    + intros Hall name v Hk Hv (s & Hs). specialize (Hall name Hk).
      rewrite lookupValidator_plain in Hall by (left; by apply Hplain).
      rewrite Hv in Hall. apply keepTruthy_Some in Hs. congruence.
    + intros Hall name Hk.
      rewrite lookupValidator_plain by (left; by apply Hplain).
      destruct (registeredValidator options name) as [v|] eqn:Hv; [|done].
      destruct (keepTruthy (v (getField (st_values st) name) (st_values st)))
        as [s|] eqn:Hm; [|done].
      exfalso. apply (Hall name v Hk Hv). exists s. by apply keepTruthy_Some.
Qed.

Lemma validateAll_errors_exact_witness :
  validateAll_recomputes (λ message, ∃ s, message = Some s ∧ s ≠ "")
    passwordForm (mount passwordForm).
Proof.
  apply (validateAll_errors_exact passwordForm (mount passwordForm)).
  intros key [x Hx]. cbn in Hx.
  apply lookup_insert_Some in Hx as [[<- _]|[_ Hx]]; [done|].
  by apply lookup_singleton_Some in Hx as [<- _].
Defined.

(** The message stored for a field by [validateAll] is the one the
    validator read at [validators[name]] returned. *)
Lemma validateAll_stores_message options st name s :
  let r := UseFormReturn.validateAll (useForm options st) st in
  st_errors (after r) !! name = Some s →
  ∃ v, lookupValidator options name = Some v ∧
       v (getField (st_values st) name) (st_values st) = Some s.
Proof.
  cbn. intros (_ & _ & Hs)%validateAll_errors_Some. unfold reported in Hs.
  destruct (lookupValidator options name) as [v|]; [|done].
  apply keepTruthy_Some in Hs. exists v. naive_solver.
Qed.

(** ** The empty message *)

(** C10: for a field whose registered validator returns the empty string on
    the current values, [validateField name] is [false] and leaves no entry
    for [name] in [errors], while [validateAll ()] adds no entry for it and
    its result depends on the other fields only: it is [true] as soon as
    every other field is clean. The two operations disagree on the field. *)
Theorem empty_message_disagreement options st name v :
  lookupValidator options name = Some v →
  v (getField (st_values st) name) (st_values st) = Some "" →
  let values := st_values st in
  let form := useForm options st in
  let vf := UseFormReturn.validateField form name st in
  let va := UseFormReturn.validateAll form st in
  result vf = false ∧
  st_errors (after vf) !! name = None ∧
  st_errors (after va) !! name = None ∧
  (result va = true ↔
     ∀ other w, other ≠ name → is_Some (values !! other) →
       lookupValidator options other = Some w →
       truthy (w (getField values other) values) = false).
Proof.
  intros Hv Hm. cbn. split_and!.
  - by rewrite validateField_run, Hv, Hm.
  - rewrite validateField_run, Hv. cbn.
    by rewrite Hm, assignOrDelete_lookup_falsy.
  - rewrite validateAll_errors. unfold reported. rewrite Hv, Hm.
    by case_decide.
  - rewrite validateAll_result. unfold reported. split.
    + intros Hall other w _ Hk Hw. specialize (Hall other Hk).
      rewrite Hw in Hall. by apply keepTruthy_None.
    + intros Hall k Hk. destruct (decide (k = name)) as [->|Hne].
      * by rewrite Hv, Hm.
      * destruct (lookupValidator options k) as [w|] eqn:Hw; [|done].
        apply keepTruthy_None. by apply Hall.
Qed.

Lemma empty_message_disagreement_witness :
  result (UseFormReturn.validateField
            (useForm emptyMessageForm (mount emptyMessageForm)) "x"
            (mount emptyMessageForm)) = false ∧
  result (UseFormReturn.validateAll
            (useForm emptyMessageForm (mount emptyMessageForm))
            (mount emptyMessageForm)) = true.
Proof.
  destruct (empty_message_disagreement emptyMessageForm
              (mount emptyMessageForm) "x" emptyMessage eq_refl eq_refl)
    as (Hvf & _ & _ & Hva).
  split; [exact Hvf|].
  apply Hva. intros other w Hne [x Hx] _. exfalso.
  unfold mount, emptyMessageForm in Hx. cbn in Hx.
  apply lookup_singleton_Some in Hx. naive_solver.
Defined.

(** ** [handleSubmit] *)

Lemma handleSubmit_run options values onValid e st :
  handleSubmit options values onValid e st =
    let va := validateAll options values st in
    (tt, after va,
     trace (preventDefaultIfPresent e st) ++ trace va ++
       (if result va then [OnValidCall onValid values] else []))%list.
Proof.
  unfold handleSubmit. rewrite !bind_run. cbn zeta.
  assert (after (preventDefaultIfPresent e st) = st) as -> by by destruct e.
  destruct (validateAll options values st) as [[[] st1] t1]; by destruct e.
Qed.

Lemma handleSubmit_after options values onValid e st :
  after (handleSubmit options values onValid e st) =
    after (validateAll options values st).
Proof. by rewrite handleSubmit_run. Qed.

Lemma handleSubmit_trace options values onValid e st :
  trace (handleSubmit options values onValid e st) =
    (trace (preventDefaultIfPresent e st) ++
     trace (validateAll options values st) ++
     (if result (validateAll options values st)
      then [OnValidCall onValid values] else []))%list.
Proof. by rewrite handleSubmit_run. Qed.

Lemma preventDefaultIfPresent_trace e st :
  List.filter isValidateAllEnter (trace (preventDefaultIfPresent e st)) = [] ∧
  List.filter isOnValidCall (trace (preventDefaultIfPresent e st)) = [].
Proof. by destruct e. Qed.

(** C1: the callback returned by [handleSubmit onValid] enters [validateAll]
    exactly once; when [validateAll] is [true] it calls [onValid] exactly
    once, with the current [values]; when it is [false] it does not call
    [onValid], and [errors] afterwards is the mapping [validateAll]
    computed. In both cases the cells end as [validateAll] leaves them. *)
Theorem handleSubmit_gates_onValid options st onValid e :
  let form := useForm options st in
  let va := UseFormReturn.validateAll form st in
  let r := UseFormReturn.handleSubmit form onValid e st in
  List.filter isValidateAllEnter (trace r) = [ValidateAllEnter] ∧
  after r = after va ∧
  (if result va
   then List.filter isOnValidCall (trace r) =
          [OnValidCall onValid (st_values st)]
   else List.filter isOnValidCall (trace r) = [] ∧
        st_errors (after r) = st_errors (after va)).
Proof.
  cbn.
  destruct (validateAll_trace options (st_values st) st) as [Henter Hcalls].
  destruct (preventDefaultIfPresent_trace e st) as [Hpd1 Hpd2].
  rewrite handleSubmit_after, handleSubmit_trace.
  rewrite !List.filter_app, Henter, Hcalls, Hpd1, Hpd2.
  by destruct (result (validateAll options (st_values st) st)).
Qed.

(** ** [register] *)

(** C6: the blur callback of [register name] first sets [touched[name]] to
    [true] and then runs [validateField name]; [touched[name]] is [true]
    afterwards whatever the validation yields, also without a validator. *)
Theorem onBlur_touches_then_validates options st name :
  let form := useForm options st in
  let marked := after (setTouched (λ prev, <[name := true]> prev) st) in
  let vf := UseFormReturn.validateField form name marked in
  let r := onBlur (UseFormReturn.register form name) st in
  trace r = SetTouched :: trace vf ∧
  head (trace vf) = Some (ValidateFieldEnter name) ∧
  after r = after vf ∧
  st_touched (after r) !! name = Some true.
Proof.
  cbn. rewrite !bind_run. cbn.
  set (marked := {| st_values := st_values st; st_errors := st_errors st;
                    st_touched := <[name := true]> (st_touched st) |}).
  destruct (validateField_frame options (st_values st) marked name)
    as [_ Htouched].
  unfold after at 1 2. cbn [fst snd]. rewrite Htouched.
  split_and!; try done.
  - by rewrite app_nil_r.
  - rewrite validateField_run.
    by destruct (lookupValidator options name).
  - subst marked. cbn. by rewrite lookup_insert_eq.
Qed.

(** ** [setValue] *)

(** C7: [setValue a x] replaces [values[a]] by [x] and nothing else: every
    other field keeps its value, [errors] and [touched] are unchanged, and
    no validation runs. *)
Theorem setValue_isolated options st a x :
  let r := UseFormReturn.setValue (useForm options st) a x st in
  st_values (after r) !! a = Some x ∧
  (∀ b, b ≠ a → st_values (after r) !! b = st_values st !! b) ∧
  st_errors (after r) = st_errors st ∧
  st_touched (after r) = st_touched st ∧
  List.filter isValidation (trace r) = [].
Proof.
  cbn. split_and!; try done.
  - by rewrite lookup_insert_eq.
  - intros b Hb. by rewrite lookup_insert_ne.
Qed.

(** ** [reset] *)

(** C8: [reset ()] sets [values] to the construction-time [defaultValues],
    [reset W] sets [values] to [W]; both empty [errors] and [touched]. *)
Theorem reset_restores options st :
  let form := useForm options st in
  after (UseFormReturn.reset form None st) =
    {| st_values := defaultValues options; st_errors := ∅; st_touched := ∅ |} ∧
  ∀ W, after (UseFormReturn.reset form (Some W) st) =
    {| st_values := W; st_errors := ∅; st_touched := ∅ |}.
Proof. done. Qed.

(** ** [isSubmitting] *)

(** C4: the object returned by [useForm] has no [isSubmitting] property:
    reading it yields [undefined], never [false]. *)
Theorem useForm_has_no_isSubmitting options st :
  getProperty (useForm options st) "isSubmitting" = PropUndefined ∧
  getProperty (useForm options st) "isSubmitting" ≠ PropBool false.
Proof. done. Qed.

(** ** The field set *)

Lemma validateAll_errors_dom options values st :
  dom (st_errors (after (validateAll options values st))) ⊆ dom values.
Proof.
  intros k [s Hs]%elem_of_dom.
  apply validateAll_errors_Some in Hs as [Hk _]. by apply elem_of_dom.
Qed.

Lemma validateField_errors_dom options values st name :
  dom (st_errors (after (validateField options values name st))) ⊆
    match lookupValidator options name with
    | Some _ => {[name]} ∪ dom (st_errors st)
    | None => dom (st_errors st)
    end.
Proof.
  rewrite validateField_run.
  destruct (lookupValidator options name) as [v|]; cbn.
  - apply assignOrDelete_dom.
  - destruct (st_errors st !! name); [|done].
    rewrite dom_delete_L. set_solver.
Qed.

Lemma validateField_keys options snap live name :
  name ∈ fieldSet options ∨ lookupValidator options name = None →
  keysPreserved options live →
  keysPreserved options
    (after (validateField options (st_values snap) name live)).
Proof.
  intros Hname (Hv & He & Ht).
  destruct (validateField_frame options (st_values snap) live name)
    as [Hvalues Htouched].
  pose proof (validateField_errors_dom options (st_values snap) live name)
    as Herrors.
  split_and!; [congruence | | by rewrite Htouched].
  destruct (lookupValidator options name) as [v|]; [|set_solver].
  destruct Hname as [Hname|?]; [set_solver | done].
Qed.

Lemma validateAll_keys options snap live :
  dom (st_values snap) = fieldSet options →
  keysPreserved options live →
  keysPreserved options (after (validateAll options (st_values snap) live)).
Proof.
  intros Hsnap (Hv & He & Ht).
  destruct (validateAll_frame options (st_values snap) live)
    as [Hvalues Htouched].
  pose proof (validateAll_errors_dom options (st_values snap) live).
  split_and!; [congruence | set_solver | by rewrite Htouched].
Qed.

Lemma perform_keys options snap live op :
  dom (st_values snap) = fieldSet options →
  keysPreserved options live →
  opInSchema options op →
  keysPreserved options (after (perform (useForm options snap) op live)).
Proof.
  intros Hsnap Hlive Hop.
  destruct op as [name x|name| |name x|name|onValid e|[W|]];
    cbn [perform useForm UseFormReturn.setValue UseFormReturn.validateField
         UseFormReturn.validateAll UseFormReturn.register
         UseFormReturn.handleSubmit UseFormReturn.reset register onChange
         onBlur opInSchema] in *.
  - destruct Hlive as (Hv & He & Ht). split_and!; [|done..].
    cbn. rewrite dom_insert_L. set_solver.
  - rewrite bind_run. apply validateField_keys; [|done].
    destruct Hop as [?|[Hreg Hname]]; [by left|right].
    by rewrite lookupValidator_plain.
  - rewrite bind_run. by apply validateAll_keys.
  - destruct Hlive as (Hv & He & Ht). split_and!; [|done..].
    cbn. rewrite dom_insert_L. set_solver.
  - rewrite !bind_run. apply validateField_keys; [by left|].
    destruct Hlive as (Hv & He & Ht). split_and!; [done..|].
    cbn. rewrite dom_insert_L. set_solver.
  - rewrite handleSubmit_after. by apply validateAll_keys.
  - split_and!; cbn; [done|set_solver..].
  - split_and!; cbn; [done|set_solver..].
Qed.

Lemma performAll_keys options snap ops live :
  dom (st_values snap) = fieldSet options →
  keysPreserved options live →
  Forall (opInSchema options) ops →
  keysPreserved options (after (performAll (useForm options snap) ops live)).
Proof.
  intros Hsnap Hlive Hops. revert live Hlive.
  induction Hops as [|op ops Hop Hops IH]; intros live Hlive; [done|].
  cbn [performAll]. rewrite bind_run. apply IH. by apply perform_keys.
Qed.

(** C5, as stated, fails: [setValue] with a name outside the field set adds
    that name to [values]. *)
Lemma setValue_unknown_name_adds_key :
  ¬ keysPreserved plainForm
      (runBatches plainForm (mount plainForm)
         [[CallSetValue "zip" (JsString "1")]]).
Proof.
  intros [Hdom _].
  assert ("zip" ∈ dom (defaultValues plainForm)) as [x Hx]%elem_of_dom.
  { fold (fieldSet plainForm). rewrite <- Hdom. apply elem_of_dom. by eexists. }
  vm_compute in Hx. discriminate.
Qed.

(** C5 (amended): for every sequence of calls that respect the schema
    (field names of [setValue], of the [register] callbacks and of
    [validateField] in the field set, or for [validateField] a name for
    which the read [validators?.[name]] finds nothing: no registered
    validator and not a property of [Object.prototype]; replacement
    mappings of [reset] over the field set), the key set of [values] stays
    the set of field names given at construction, and the key sets of
    [errors] and [touched] stay subsets of it. *)
Theorem field_set_invariant options batches :
  Forall (Forall (opInSchema options)) batches →
  keysPreserved options (runBatches options (mount options) batches).
Proof.
  intros Hbatches.
  assert (keysPreserved options (mount options)) as Hmount.
  { split_and!; cbn; [done|set_solver..]. }
  revert Hmount. generalize (mount options) as st.
  induction Hbatches as [|ops batches Hops Hbatches IH]; intros st Hst; [done|].
  cbn [runBatches foldl]. apply IH. unfold runBatch.
  apply performAll_keys; [by destruct Hst | done..].
Qed.

Lemma field_set_invariant_witness :
  keysPreserved usernameForm
    (runBatches usernameForm (mount usernameForm)
       [ [CallOnBlur "username"];
         [CallSetValue "username" (JsString "x"); CallValidateAll];
         [CallValidateField "email"; CallSubmit 0 ArgEvent];
         [CallReset (Some {[ "username" := JsString "y" ]})] ]).
Proof.
  apply (field_set_invariant usernameForm).
  assert ("username" ∈ fieldSet usernameForm) as Hname.
  { apply elem_of_dom. by eexists. }
  repeat first [apply Forall_nil_2 | apply Forall_cons_2]; cbn;
    try exact Hname; try exact I.
  - right. split; [reflexivity | by left].
  - unfold fieldSet. cbn. by rewrite !dom_singleton_L.
Defined.

(** Each restriction of [opInSchema] is needed: a blur on an unknown name
    adds a key to [touched], a replacement with other keys changes the keys
    of [values], and [validateField] on an unknown name adds a key to
    [errors] when a validator is stored under that name, or when the name
    is [toString], which every [validators] object inherits. *)
Example validateField_inherited_name_adds_key :
  let options := {| defaultValues := {[ "username" := JsString "" ]};
                    validators := Some ∅ |} in
  st_errors (runBatches options (mount options) [[CallValidateField "toString"]])
    !! "toString" = Some "[object Undefined]".
Proof. reflexivity. Qed.

Example onBlur_unknown_name_adds_key :
  st_touched (runBatches plainForm (mount plainForm) [[CallOnBlur "zip"]])
    !! "zip" = Some true.
Proof. reflexivity. Qed.

Example reset_other_keys_changes_keys :
  st_values (runBatches plainForm (mount plainForm)
               [[CallReset (Some {[ "zip" := JsString "1" ]})]])
    !! "username" = None.
Proof. reflexivity. Qed.

Example validateField_stray_validator_adds_key :
  let options := {| defaultValues := {[ "username" := JsString "" ]};
                    validators := Some {[ "zip" := required ]} |} in
  st_errors (runBatches options (mount options) [[CallValidateField "zip"]])
    !! "zip" = Some "Required".
Proof. reflexivity. Qed.

(** ** Scenarios of the test suite *)

(** Construction: [values] are the defaults, [errors] and [touched] are
    empty, and without validators [validateAll] is [true]. *)
Example scenario_no_validators :
  let form := useForm plainForm (mount plainForm) in
  let r := UseFormReturn.validateAll form (mount plainForm) in
  UseFormReturn.values form = defaultValues plainForm ∧
  UseFormReturn.errors form = ∅ ∧
  UseFormReturn.touched form = ∅ ∧
  result r = true ∧ st_errors (after r) = ∅.
Proof. by vm_compute. Qed.

(** A required field: invalid while empty, valid after a [setValue] and a
    new render. *)
Example scenario_required :
  let st1 := runBatches usernameForm (mount usernameForm)
               [[CallValidateField "username"]] in
  let st2 := runBatches usernameForm st1
               [[CallSetValue "username" (JsString "x")];
                [CallValidateField "username"]] in
  result (UseFormReturn.validateField
            (useForm usernameForm (mount usernameForm)) "username"
            (mount usernameForm)) = false ∧
  st_errors st1 !! "username" = Some "Required" ∧
  st_values st2 !! "username" = Some (JsString "x") ∧
  st_errors st2 !! "username" = None.
Proof. by vm_compute. Qed.

(** A validator that reads another field. *)
Example scenario_cross_field :
  let r := UseFormReturn.validateField
             (useForm passwordForm (mount passwordForm)) "confirm"
             (mount passwordForm) in
  result r = false ∧
  st_errors (after r) !! "confirm" = Some "Passwords must match".
Proof. by vm_compute. Qed.

(** Blur: touched with and without validator. *)
Example scenario_blur :
  st_touched (runBatches plainForm (mount plainForm) [[CallOnBlur "age"]])
    !! "age" = Some true ∧
  let st := runBatches usernameForm (mount usernameForm)
              [[CallOnBlur "username"]] in
  st_touched st !! "username" = Some true ∧
  st_errors st !! "username" = Some "Required".
Proof. by vm_compute. Qed.

(** Two [setValue] calls made on the closures of one render both land. *)
Example scenario_two_updates_in_one_batch :
  let st := runBatches plainForm (mount plainForm)
              [[CallSetValue "username" (JsString "john");
                CallSetValue "age" (JsNumber 25)]] in
  st_values st !! "username" = Some (JsString "john") ∧
  st_values st !! "age" = Some (JsNumber 25).
Proof. by vm_compute. Qed.

(** The closures of a render read the [values] of that render: a
    validation made in the same batch as a [setValue] does not see the new
    value, one made after the next render does. *)
Example batched_validation_reads_render_values :
  let st1 := runBatches usernameForm (mount usernameForm)
               [[CallSetValue "username" (JsString "x");
                 CallValidateField "username"]] in
  let st2 := runBatches usernameForm st1 [[CallValidateField "username"]] in
  st_errors st1 !! "username" = Some "Required" ∧
  st_errors st2 !! "username" = None.
Proof. by vm_compute. Qed.

(** Submission with a form event, valid and invalid. *)
Example scenario_submit :
  trace (UseFormReturn.handleSubmit (useForm plainForm (mount plainForm))
           7 ArgEvent (mount plainForm)) =
    [PreventDefaultCall; ValidateAllEnter; SetErrors;
     OnValidCall 7 (defaultValues plainForm)] ∧
  List.filter isOnValidCall
    (trace (UseFormReturn.handleSubmit
              (useForm usernameForm (mount usernameForm))
              7 ArgAbsent (mount usernameForm))) = [].
Proof. by vm_compute. Qed.

(** * Further properties of the hook *)

(** ** What validation writes *)

(** X1: [validateField name] writes no entry of [errors] other than the one
    of [name]. *)
Theorem validateField_other_errors_kept options st name :
  let r := UseFormReturn.validateField (useForm options st) name st in
  delete name (st_errors (after r)) = delete name (st_errors st).
Proof.
  cbn. rewrite validateField_run.
  destruct (lookupValidator options name) as [v|]; cbn.
  - unfold assignOrDelete.
    destruct (v (getField (st_values st) name) (st_values st)) as [s|];
      [destruct (truthy (Some s))|].
    + by rewrite delete_assign.
    + by rewrite delete_delete_eq.
    + by rewrite delete_delete_eq.
  - destruct (st_errors st !! name); [|done]. by rewrite delete_delete_eq.
Qed.

(** X2: [validateAll] recomputes from the [values] alone: its result and
    the [errors] it leaves do not depend on the [errors] and [touched] it
    starts from. *)
Theorem validateAll_ignores_previous_errors options vals errs1 errs2 t1 t2 :
  let st1 := {| st_values := vals; st_errors := errs1; st_touched := t1 |} in
  let st2 := {| st_values := vals; st_errors := errs2; st_touched := t2 |} in
  let r1 := UseFormReturn.validateAll (useForm options st1) st1 in
  let r2 := UseFormReturn.validateAll (useForm options st2) st2 in
  result r1 = result r2 ∧
  st_errors (after r1) = st_errors (after r2) ∧
  trace r1 = trace r2.
Proof.
  cbn. rewrite !validateAll_run. by destruct (validators options).
Qed.

(** X3: when [validateAll] is [true] the [errors] it leaves are empty;
    conversely, when no field is named [__proto__], empty [errors] mean that
    it was [true]. *)
Theorem validateAll_true_iff_no_errors options st :
  let r := UseFormReturn.validateAll (useForm options st) st in
  (result r = true → st_errors (after r) = ∅) ∧
  (st_values st !! "__proto__" = None →
   st_errors (after r) = ∅ → result r = true).
Proof.
  cbn. rewrite validateAll_result. split.
  - intros Hall. apply map_eq. intros k.
    rewrite validateAll_errors, lookup_empty.
    case_decide as Hk; [apply Hall; by destruct Hk | done].
  - intros Hproto Hempty k Hk.
    pose proof (validateAll_errors options (st_values st) st k) as Hlookup.
    rewrite Hempty, lookup_empty, decide_True in Hlookup; [done|].
    split; [done|]. intros ->. rewrite Hproto in Hk. by destruct Hk.
Qed.

(** For a field named [__proto__] the message is not stored, so
    [validateAll] can be [false] and leave empty [errors]. *)
Example validateAll_proto_false_without_errors :
  let r := UseFormReturn.validateAll (useForm protoForm (mount protoForm))
             (mount protoForm) in
  result r = false ∧ st_errors (after r) = ∅.
Proof. by vm_compute. Qed.

(** X4: on a field of [values], [validateAll] and [validateField] leave
    the same entry in [errors], provided the field is not named
    [__proto__] or [errors] has no entry of that name (the hook never
    creates one). *)
Theorem validateAll_agrees_with_validateField options st name :
  is_Some (st_values st !! name) →
  name ≠ "__proto__" ∨ st_errors st !! "__proto__" = None →
  let form := useForm options st in
  st_errors (after (UseFormReturn.validateAll form st)) !! name =
    st_errors (after (UseFormReturn.validateField form name st)) !! name.
Proof.
  intros Hname Hproto. cbn.
  rewrite validateAll_errors, validateField_run. unfold reported.
  destruct (decide (name = "__proto__")) as [->|Hne].
  - destruct Hproto as [?|Habsent]; [done|].
    rewrite decide_False by (by intros [_ ?]).
    destruct (lookupValidator options "__proto__") as [v|]; cbn.
    + unfold assignOrDelete.
      destruct (v _ _) as [s|]; [destruct (truthy (Some s))|].
      * by rewrite assign_proto_absent.
      * by rewrite lookup_delete_eq.
      * by rewrite lookup_delete_eq.
    + by rewrite Habsent.
  - rewrite decide_True by done.
    destruct (lookupValidator options name) as [v|]; cbn.
    + by rewrite assignOrDelete_lookup.
    + destruct (st_errors st !! name) eqn:He; [|done].
      by rewrite lookup_delete_eq.
Qed.

(** Under the name [__proto__] an entry that [errors] already holds is
    overwritten by [validateField], while [validateAll] starts from an
    object without it and stores nothing. *)
Example validateField_overwrites_proto_entry :
  let st := {| st_values := defaultValues protoForm;
               st_errors := {[ "__proto__" := "old" ]};
               st_touched := ∅ |} in
  let form := useForm protoForm st in
  st_errors (after (UseFormReturn.validateAll form st)) !! "__proto__" = None ∧
  st_errors (after (UseFormReturn.validateField form "__proto__" st))
    !! "__proto__" = Some "Required".
Proof. by vm_compute. Qed.

Lemma validateAll_agrees_with_validateField_witness :
  st_errors (after (UseFormReturn.validateAll
                      (useForm passwordForm (mount passwordForm))
                      (mount passwordForm))) !! "confirm" =
    st_errors (after (UseFormReturn.validateField
                        (useForm passwordForm (mount passwordForm)) "confirm"
                        (mount passwordForm))) !! "confirm".
Proof.
  apply (validateAll_agrees_with_validateField passwordForm
           (mount passwordForm) "confirm").
  - by eexists.
  - by left.
Defined.

(** X5: when [validateField] is [true] on every field of [values],
    [validateAll] is [true]. *)
Theorem all_fields_valid_validateAll_true options st :
  (∀ name, is_Some (st_values st !! name) →
     result (UseFormReturn.validateField (useForm options st) name st) = true) →
  result (UseFormReturn.validateAll (useForm options st) st) = true.
Proof.
  cbn. intros Hall. apply validateAll_result. intros k Hk.
  specialize (Hall k Hk). rewrite validateField_run in Hall. unfold reported.
  destruct (lookupValidator options k) as [v|]; [|done].
  cbn in Hall. apply isNull_true in Hall. by rewrite Hall.
Qed.

Lemma all_fields_valid_validateAll_true_witness :
  let st := {| st_values := {[ "username" := JsString "john" ]};
               st_errors := {[ "username" := "Required" ]};
               st_touched := ∅ |} in
  result (UseFormReturn.validateAll (useForm usernameForm st) st) = true.
Proof.
  apply (all_fields_valid_validateAll_true usernameForm
           {| st_values := {[ "username" := JsString "john" ]};
              st_errors := {[ "username" := "Required" ]};
              st_touched := ∅ |}).
  intros k [x Hx]. cbn in Hx. apply lookup_singleton_Some in Hx as [<- _].
  reflexivity.
Defined.

(** X6: [validateAll] and the submit handler write [errors] only: [values]
    and [touched] are left as they are. *)
Theorem validation_keeps_values_and_touched options st onValid e :
  let form := useForm options st in
  let va := UseFormReturn.validateAll form st in
  let r := UseFormReturn.handleSubmit form onValid e st in
  st_values (after va) = st_values st ∧
  st_touched (after va) = st_touched st ∧
  st_values (after r) = st_values st ∧
  st_touched (after r) = st_touched st.
Proof.
  cbn. rewrite handleSubmit_after.
  destruct (validateAll_frame options (st_values st) st) as [Hv Ht].
  by rewrite Hv, Ht.
Qed.

(** ** Which validators run *)

Lemma validatorCalls_for_absent values vs keys name :
  name ∉ keys →
  List.filter (isValidatorCallFor name) (validatorCalls values vs keys) = [].
Proof.
  induction keys as [|key keys IH]; [done|].
  intros [Hne Hrest]%not_elem_of_cons.
  unfold validatorCalls in *. cbn [omap list_omap].
  destruct (readValidator vs key); cbn; [|by apply IH].
  rewrite bool_decide_eq_false_2 by done. by apply IH.
Qed.

Lemma validatorCalls_for values vs keys name :
  NoDup keys →
  List.filter (isValidatorCallFor name) (validatorCalls values vs keys) =
    match readValidator vs name with
    | Some _ =>
        if decide (name ∈ keys)
        then [ValidatorCall name (getField values name) values]
        else []
    | None => []
    end.
Proof.
  induction 1 as [|key keys Hfresh Hnodup IH].
  - cbn. destruct (readValidator vs name); [|done].
    by rewrite decide_False by apply not_elem_of_nil.
  - destruct (decide (name = key)) as [->|Hne].
    + unfold validatorCalls. cbn [omap list_omap].
      rewrite (decide_True (P := key ∈ key :: keys)) by apply list_elem_of_here.
      pose proof (validatorCalls_for_absent values vs keys key Hfresh) as Hnone.
      unfold validatorCalls in Hnone.
      destruct (readValidator vs key); cbn; [|done].
      by rewrite bool_decide_eq_true_2, Hnone by done.
    + assert (name ∈ key :: keys ↔ name ∈ keys) as Hin.
      { rewrite elem_of_cons. naive_solver. }
      unfold validatorCalls in *. cbn [omap list_omap].
      assert (List.filter (isValidatorCallFor name)
                (omap (λ k, match readValidator vs k with
                            | Some _ =>
                                Some (ValidatorCall k (getField values k) values)
                            | None => None
                            end) keys) =
              match readValidator vs name with
              | Some _ =>
                  if decide (name ∈ key :: keys)
                  then [ValidatorCall name (getField values name) values]
                  else []
              | None => []
              end) as Hrest.
      { rewrite IH. destruct (readValidator vs name); [|done].
        destruct (decide (name ∈ keys)).
        - by rewrite decide_True by by apply Hin.
        - by rewrite decide_False by by rewrite Hin. }
      destruct (readValidator vs key); cbn; [|done].
      by rewrite bool_decide_eq_false_2 by done.
Qed.

(** X7: [validateAll] calls the validator of a field exactly once, with
    [values[name]] and the [values] of the render, when the field is a key
    of [values] and has a validator; it never calls a validator stored
    under a name that is not a key of [values]. *)
Theorem validateAll_calls_each_validator_once options st name :
  let values := st_values st in
  let r := UseFormReturn.validateAll (useForm options st) st in
  List.filter (isValidatorCallFor name) (trace r) =
    match lookupValidator options name with
    | Some _ =>
        if decide (is_Some (values !! name))
        then [ValidatorCall name (getField values name) values]
        else []
    | None => []
    end.
Proof.
  cbn. rewrite validateAll_run. unfold lookupValidator.
  destruct (validators options) as [vs|]; [|done].
  cbn. rewrite List.filter_app. cbn. rewrite app_nil_r.
  rewrite validatorCalls_for by apply NoDup_fst_map_to_list.
  destruct (readValidator vs name); [|done].
  destruct (decide (is_Some (st_values st !! name))) as [Hk|Hk].
  - by rewrite decide_True by by apply elem_of_Object_keys.
  - by rewrite decide_False by by rewrite elem_of_Object_keys.
Qed.

(** ** The submit handler and its argument *)

Lemma validatorCalls_not_preventDefault values vs keys :
  List.filter isPreventDefaultCall (validatorCalls values vs keys) = [].
Proof.
  induction keys as [|key keys IH]; [done|].
  unfold validatorCalls in *. cbn [omap list_omap].
  by destruct (readValidator vs key).
Qed.

Lemma validateAll_trace_shape options values st :
  List.filter isPreventDefaultCall (trace (validateAll options values st)) = [] ∧
  ∃ rest, trace (validateAll options values st) = ValidateAllEnter :: rest.
Proof.
  rewrite validateAll_run. destruct (validators options) as [vs|].
  - split; [|by eexists]. cbn.
    by rewrite List.filter_app, validatorCalls_not_preventDefault.
  - split; [done | by eexists].
Qed.

(** X8: the submit handler calls [preventDefault] exactly once, before
    anything else, when its argument has a callable [preventDefault], and
    never otherwise; the argument has no other effect on the cells it
    leaves. *)
Theorem handleSubmit_preventDefault options st onValid e :
  let form := useForm options st in
  let r := UseFormReturn.handleSubmit form onValid e st in
  List.filter isPreventDefaultCall (trace r) =
    match e with ArgEvent => [PreventDefaultCall] | _ => [] end ∧
  head (trace r) =
    match e with
    | ArgEvent => Some PreventDefaultCall
    | _ => Some ValidateAllEnter
    end ∧
  after r = after (UseFormReturn.handleSubmit form onValid ArgAbsent st).
Proof.
  cbn [useForm UseFormReturn.handleSubmit].
  rewrite !handleSubmit_after, handleSubmit_trace.
  destruct (validateAll_trace_shape options (st_values st) st)
    as [Hnone (rest & Hhead)].
  rewrite !List.filter_app, Hnone, Hhead.
  by destruct e, (result (validateAll options (st_values st) st)).
Qed.

(** ** Batches *)

Lemma performAll_app form ops1 ops2 st :
  after (performAll form (ops1 ++ ops2) st) =
    after (performAll form ops2 (after (performAll form ops1 st))).
Proof.
  revert st. induction ops1 as [|op ops1 IH]; intros st; [done|].
  cbn [performAll app]. rewrite !bind_run. unfold after at 1 3.
  cbn [fst snd]. apply IH.
Qed.

(** X9: a [reset] wipes what the calls made before it on the same render
    did: a batch that ends in [reset] leaves the restored [values] and
    empty [errors] and [touched], from every state. *)
Theorem reset_ends_batch options st ops nextValues :
  runBatch options st (ops ++ [CallReset nextValues]) =
    {| st_values := default (defaultValues options) nextValues;
       st_errors := ∅;
       st_touched := ∅ |}.
Proof. unfold runBatch. by rewrite performAll_app. Qed.

(** X10: two [setValue] calls made on one render are both applied, in
    order: on the same field the last one wins, on two fields they
    commute. *)
Theorem setValue_batched options st a b x y :
  runBatch options st [CallSetValue a x; CallSetValue a y] =
    runBatch options st [CallSetValue a y] ∧
  (a ≠ b →
   runBatch options st [CallSetValue a x; CallSetValue b y] =
     runBatch options st [CallSetValue b y; CallSetValue a x]).
Proof.
  unfold runBatch.
  cbn [performAll perform useForm UseFormReturn.setValue].
  rewrite !bind_run. unfold setValue, setValues, after, result.
  cbn [fst snd st_values st_errors st_touched]. split.
  - by rewrite insert_insert_eq.
  - intros Hne. by rewrite insert_insert_ne.
Qed.

(** X11: the closures of a render read the [values] of that render: a
    [validateField] or [validateAll] made in the same batch after a
    [setValue] leaves the [errors] it leaves without the [setValue], while
    the new value is stored. *)
Theorem batched_validation_ignores_pending_setValue options st a x name :
  let both := runBatch options st [CallSetValue a x; CallValidateField name] in
  st_errors both = st_errors (runBatch options st [CallValidateField name]) ∧
  st_values both = <[a := x]> (st_values st) ∧
  st_errors (runBatch options st [CallSetValue a x; CallValidateAll]) =
    st_errors (runBatch options st [CallValidateAll]).
Proof.
  unfold runBatch.
  cbn [performAll perform useForm UseFormReturn.setValue
       UseFormReturn.validateField UseFormReturn.validateAll].
  rewrite !bind_run, !validateField_run, !validateAll_run.
  destruct (lookupValidator options name), (validators options); by cbn.
Qed.

(** X12: after a [setValue] and the next render, the object returned by
    [useForm] and the binding returned by [register] show the new value;
    the bindings of the other fields and [errors] are as before. *)
Theorem setValue_then_render_reads options st a x :
  let form := useForm options st in
  let form' := useForm options (runBatch options st [CallSetValue a x]) in
  UseFormReturn.values form' !! a = Some x ∧
  value (UseFormReturn.register form' a) = x ∧
  (∀ b, b ≠ a →
     value (UseFormReturn.register form' b) =
       value (UseFormReturn.register form b)) ∧
  UseFormReturn.errors form' = UseFormReturn.errors form ∧
  UseFormReturn.touched form' = UseFormReturn.touched form.
Proof.
  unfold runBatch.
  cbn [performAll perform useForm UseFormReturn.setValue UseFormReturn.values
       UseFormReturn.register UseFormReturn.errors UseFormReturn.touched
       register value].
  rewrite !bind_run.
  unfold setValue, setValues, after, result, getField, mret, Act_ret, act_ret.
  cbn [fst snd st_values st_errors st_touched]. split_and!; try done.
  - by rewrite lookup_insert_eq.
  - by rewrite lookup_insert_eq.
  - intros b Hb. by rewrite lookup_insert_ne.
Qed.

(** ** What the cells can hold *)

Lemma validateField_errors_ok options values st name :
  map_Forall (errorEntryOk options) (st_errors st) →
  map_Forall (errorEntryOk options)
    (st_errors (after (validateField options values name st))).
Proof.
  intros Hok. rewrite validateField_run.
  destruct (lookupValidator options name) as [v|] eqn:Hv; cbn.
  - unfold assignOrDelete.
    destruct (v (getField values name) values) as [s|] eqn:Hm;
      [destruct (truthy (Some s)) eqn:Ht|].
    + destruct (assign_cases name s (st_errors st)) as [-> | ->]; [|done].
      apply map_Forall_insert_2; [|done]. split; [|by rewrite Hv].
      assert (keepTruthy (Some s) = Some s) as Hs by by unfold keepTruthy; rewrite Ht.
      apply keepTruthy_Some in Hs. naive_solver.
    + by apply map_Forall_delete.
    + by apply map_Forall_delete.
  - destruct (st_errors st !! name); [|done]. by apply map_Forall_delete.
Qed.

Lemma validateAll_errors_ok options values st :
  map_Forall (errorEntryOk options)
    (st_errors (after (validateAll options values st))).
Proof.
  intros k s (_ & _ & Hs)%validateAll_errors_Some. unfold reported in Hs.
  destruct (lookupValidator options k) as [v|] eqn:Hv; [|done].
  apply keepTruthy_Some in Hs as [_ Hne]. split; [done|]. by rewrite Hv.
Qed.

Lemma perform_errors_ok options snap live op :
  map_Forall (errorEntryOk options) (st_errors live) →
  map_Forall (errorEntryOk options)
    (st_errors (after (perform (useForm options snap) op live))).
Proof.
  intros Hok.
  destruct op as [n x|n| |n x|n|onValid e|nv];
    cbn [perform useForm UseFormReturn.setValue UseFormReturn.validateField
         UseFormReturn.validateAll UseFormReturn.register
         UseFormReturn.handleSubmit UseFormReturn.reset register onChange
         onBlur].
  - done.
  - rewrite bind_run. by apply validateField_errors_ok.
  - rewrite bind_run. apply validateAll_errors_ok.
  - done.
  - rewrite !bind_run. by apply validateField_errors_ok.
  - rewrite handleSubmit_after. apply validateAll_errors_ok.
  - apply map_Forall_empty.
Qed.

Lemma performAll_errors_ok options snap ops live :
  map_Forall (errorEntryOk options) (st_errors live) →
  map_Forall (errorEntryOk options)
    (st_errors (after (performAll (useForm options snap) ops live))).
Proof.
  revert live. induction ops as [|op ops IH]; intros live Hlive; [done|].
  cbn [performAll]. rewrite bind_run. apply IH.
  by apply perform_errors_ok.
Qed.

Lemma runBatches_errors_ok options st batches :
  map_Forall (errorEntryOk options) (st_errors st) →
  map_Forall (errorEntryOk options)
    (st_errors (runBatches options st batches)).
Proof.
  revert st. induction batches as [|ops batches IH]; intros st Hst; [done|].
  cbn [runBatches foldl]. apply IH. unfold runBatch.
  by apply performAll_errors_ok.
Qed.

Lemma namesPlain_insert {A} (o : gmap string A) key x :
  inheritedName key = false → namesPlain o → namesPlain (<[key := x]> o).
Proof.
  intros Hkey Ho k [y Hy]. apply lookup_insert_Some in Hy as [[<- _]|[_ Hy]];
    [done | by apply Ho].
Qed.

Lemma namesPlain_subseteq {A B} (o1 : gmap string A) (o2 : gmap string B) :
  dom o1 ⊆ dom o2 → namesPlain o2 → namesPlain o1.
Proof.
  intros Hsub Ho k Hk%elem_of_dom. by apply Ho, elem_of_dom, Hsub.
Qed.

Lemma validateField_plain options values st name :
  inheritedName name = false →
  namesPlain (st_errors st) →
  namesPlain (st_errors (after (validateField options values name st))).
Proof.
  intros Hname Herrs k Hk%elem_of_dom.
  apply validateField_errors_dom in Hk.
  destruct (lookupValidator options name);
    [apply elem_of_union in Hk as [->%elem_of_singleton|Hk]|]; try done;
    by apply Herrs, elem_of_dom.
Qed.

Lemma perform_plain options snap live op :
  namesPlain (defaultValues options) →
  namesPlain (st_values snap) →
  namesPlain (st_values live) ∧ namesPlain (st_errors live) →
  opPlain op →
  let st := after (perform (useForm options snap) op live) in
  namesPlain (st_values st) ∧ namesPlain (st_errors st).
Proof.
  intros Hdefault Hsnap [Hvalues Herrors] Hop.
  destruct op as [n x|n| |n x|n|onValid e|[W|]];
    cbn [perform useForm UseFormReturn.setValue UseFormReturn.validateField
         UseFormReturn.validateAll UseFormReturn.register
         UseFormReturn.handleSubmit UseFormReturn.reset register onChange
         onBlur opPlain] in *; cbn zeta.
  - split; [by apply namesPlain_insert | done].
  - rewrite after_bind, after_ret.
    destruct (validateField_frame options (st_values snap) live n) as [-> _].
    split; [done | by apply validateField_plain].
  - rewrite after_bind, after_ret.
    destruct (validateAll_frame options (st_values snap) live) as [-> _].
    split; [done|].
    eapply namesPlain_subseteq; [apply validateAll_errors_dom | done].
  - split; [by apply namesPlain_insert | done].
  - rewrite !after_bind, after_ret.
    match goal with
    | |- context [validateField ?o ?v ?n ?s] =>
        destruct (validateField_frame o v s n) as [-> _]
    end.
    split; [done | by apply validateField_plain].
  - rewrite handleSubmit_after.
    destruct (validateAll_frame options (st_values snap) live) as [-> _].
    split; [done|].
    eapply namesPlain_subseteq; [apply validateAll_errors_dom | done].
  - split; [done | by intros k [? ?]].
  - split; [done | by intros k [? ?]].
Qed.

Lemma performAll_plain options snap ops live :
  namesPlain (defaultValues options) →
  namesPlain (st_values snap) →
  namesPlain (st_values live) ∧ namesPlain (st_errors live) →
  Forall opPlain ops →
  let st := after (performAll (useForm options snap) ops live) in
  namesPlain (st_values st) ∧ namesPlain (st_errors st).
Proof.
  intros Hdefault Hsnap Hlive Hops. revert live Hlive.
  induction Hops as [|op ops Hop Hops IH]; intros live Hlive; [done|].
  cbn [performAll]. cbn zeta. rewrite after_bind. apply IH.
  by apply perform_plain.
Qed.

Lemma runBatches_plain options st batches :
  namesPlain (defaultValues options) →
  namesPlain (st_values st) ∧ namesPlain (st_errors st) →
  Forall (Forall opPlain) batches →
  let st' := runBatches options st batches in
  namesPlain (st_values st') ∧ namesPlain (st_errors st').
Proof.
  intros Hdefault Hst Hbatches. revert st Hst.
  induction Hbatches as [|ops batches Hops Hbatches IH]; intros st Hst; [done|].
  cbn [runBatches foldl]. apply IH. unfold runBatch.
  apply performAll_plain; [done | by destruct Hst | done..].
Qed.

(** X13: for a form whose field names are not properties of
    [Object.prototype], and calls whose names are not either, every entry
    of [errors] is, after any sequence of such calls, a non-empty message
    stored under a name that has a registered validator. *)
Theorem errors_hold_reported_messages options batches :
  namesPlain (defaultValues options) →
  Forall (Forall opPlain) batches →
  map_Forall
    (λ key message,
       message ≠ "" ∧ is_Some (registeredValidator options key))
    (st_errors (runBatches options (mount options) batches)).
Proof.
  intros Hdefault Hbatches key message Hentry.
  destruct (runBatches_errors_ok options (mount options) batches
              (map_Forall_empty _) key message Hentry) as [Hne Hread].
  split; [done|].
  destruct (runBatches_plain options (mount options) batches Hdefault)
    as [_ Herrors]; [|done|].
  { split; [done | by intros k [? ?]]. }
  rewrite <- lookupValidator_plain; [done|].
  left. apply Herrors. by eexists.
Qed.

Lemma errors_hold_reported_messages_witness :
  map_Forall
    (λ key message,
       message ≠ "" ∧ is_Some (registeredValidator usernameForm key))
    (st_errors (runBatches usernameForm (mount usernameForm)
                  [ [CallOnBlur "username"; CallValidateField "email"];
                    [CallSetValue "email" (JsString "a"); CallValidateAll] ])).
Proof.
  apply (errors_hold_reported_messages usernameForm).
  - intros key [x Hx]. cbn in Hx.
    by apply lookup_singleton_Some in Hx as [<- _].
  - repeat first [apply Forall_nil_2 | apply Forall_cons_2]; cbn; done.
Defined.

(** X14: a form constructed without [validators] never has an entry in
    [errors], whatever calls are made. *)
Theorem no_validators_no_errors options batches :
  validators options = None →
  st_errors (runBatches options (mount options) batches) = ∅.
Proof.
  intros Hnone. apply map_empty. intros k.
  destruct (st_errors (runBatches options (mount options) batches) !! k)
    as [s|] eqn:Hs; [|done].
  pose proof (runBatches_errors_ok options (mount options) batches
                (map_Forall_empty _) k s Hs) as [_ [v Hv]].
  unfold lookupValidator in Hv. by rewrite Hnone in Hv.
Qed.

Lemma no_validators_no_errors_witness :
  st_errors (runBatches plainForm (mount plainForm)
               [ [CallOnBlur "age"; CallValidateField "username"];
                 [CallValidateAll; CallSubmit 1 ArgPlain] ]) = ∅.
Proof.
  apply (no_validators_no_errors plainForm). reflexivity.
Defined.

Lemma perform_touched_true options snap live op :
  map_Forall (λ _ flag, flag = true) (st_touched live) →
  map_Forall (λ _ flag, flag = true)
    (st_touched (after (perform (useForm options snap) op live))).
Proof.
  intros Hok.
  destruct op as [n x|n| |n x|n|onValid e|nv];
    cbn [perform useForm UseFormReturn.setValue UseFormReturn.validateField
         UseFormReturn.validateAll UseFormReturn.register
         UseFormReturn.handleSubmit UseFormReturn.reset register onChange
         onBlur].
  - done.
  - rewrite after_bind.
    rewrite after_ret.
    by destruct (validateField_frame options (st_values snap) live n) as [_ ->].
  - rewrite after_bind.
    rewrite after_ret.
    by destruct (validateAll_frame options (st_values snap) live) as [_ ->].
  - done.
  - rewrite !after_bind.
    rewrite after_ret.
    match goal with
    | |- context [validateField ?o ?v ?n ?s] =>
        destruct (validateField_frame o v s n) as [_ ->]
    end.
    cbn. by apply map_Forall_insert_2.
  - rewrite handleSubmit_after.
    by destruct (validateAll_frame options (st_values snap) live) as [_ ->].
  - apply map_Forall_empty.
Qed.

Lemma performAll_touched_true options snap ops live :
  map_Forall (λ _ flag, flag = true) (st_touched live) →
  map_Forall (λ _ flag, flag = true)
    (st_touched (after (performAll (useForm options snap) ops live))).
Proof.
  revert live. induction ops as [|op ops IH]; intros live Hlive; [done|].
  cbn [performAll]. rewrite bind_run. apply IH.
  by apply perform_touched_true.
Qed.

(** X15: whatever calls are made after construction, [touched] only holds
    [true] flags: a field is either absent or marked. *)
Theorem touched_flags_are_true options batches :
  map_Forall (λ _ flag, flag = true)
    (st_touched (runBatches options (mount options) batches)).
Proof.
  assert (map_Forall (λ _ flag, flag = true) (st_touched (mount options)))
    as Hmount by apply map_Forall_empty.
  revert Hmount. generalize (mount options) as st.
  induction batches as [|ops batches IH]; intros st Hst; [done|].
  cbn [runBatches foldl]. apply IH. unfold runBatch.
  by apply performAll_touched_true.
Qed.

(** ** Validating twice *)

(** X16: [validateAll] absorbs what a validation made before it on the same
    render wrote: after [validateField name] or after another
    [validateAll] it leaves the cells it leaves on its own. *)
Theorem validateAll_absorbs_earlier_validation options st name :
  runBatch options st [CallValidateField name; CallValidateAll] =
    runBatch options st [CallValidateAll] ∧
  runBatch options st [CallValidateAll; CallValidateAll] =
    runBatch options st [CallValidateAll].
Proof.
  unfold runBatch.
  cbn [performAll perform useForm UseFormReturn.validateField
       UseFormReturn.validateAll].
  rewrite !after_bind, !after_ret, !validateAll_run, validateField_run.
  destruct (lookupValidator options name), (validators options); by cbn.
Qed.

(** X17: on a field of [values], a [validateField] made after
    [validateAll] on the same render changes nothing. *)
Theorem validateField_after_validateAll_noop options st name :
  is_Some (st_values st !! name) →
  runBatch options st [CallValidateAll; CallValidateField name] =
    runBatch options st [CallValidateAll].
Proof.
  intros Hname. unfold runBatch.
  cbn [performAll perform useForm UseFormReturn.validateField
       UseFormReturn.validateAll].
  rewrite !after_bind, !after_ret.
  set (all := after (validateAll options (st_values st) st)).
  pose proof (validateAll_errors options (st_values st) st name) as Hentry.
  fold all in Hentry. rewrite validateField_run.
  destruct (decide (name = "__proto__")) as [->|Hproto].
  - rewrite decide_False in Hentry by (by intros [_ ?]).
    destruct (lookupValidator options "__proto__") as [v|]; cbn.
    + destruct all as [vals errs tch]. cbn in *. f_equal.
      unfold assignOrDelete.
      destruct (v (getField (st_values st) "__proto__") (st_values st))
        as [s|]; [destruct (truthy (Some s))|].
      * by apply assign_proto_absent.
      * by apply delete_id.
      * by apply delete_id.
    + rewrite Hentry. by destruct all.
  - rewrite decide_True in Hentry by done. unfold reported in Hentry.
    destruct (lookupValidator options name) as [v|]; cbn.
    + destruct all as [vals errs tch]. cbn in *. f_equal.
      unfold assignOrDelete, keepTruthy in *.
      destruct (v (getField (st_values st) name) (st_values st)) as [s|];
        [destruct (truthy (Some s))|].
      * rewrite assign_insert by done. by apply insert_id.
      * by apply delete_id.
      * by apply delete_id.
    + rewrite Hentry. by destruct all.
Qed.

Lemma validateField_after_validateAll_noop_witness :
  runBatch usernameForm (mount usernameForm)
      [CallValidateAll; CallValidateField "username"] =
    runBatch usernameForm (mount usernameForm) [CallValidateAll].
Proof.
  apply (validateField_after_validateAll_noop usernameForm
           (mount usernameForm) "username").
  by eexists.
Defined.
